(** * Claim validators of package jwt (validators.go)

    A shallow embedding of the seven claim validators and of the values
    they work on.  A validator is a Go closure from a pointer to a
    Payload to an error: it receives a pointer, so the embedding
    threads the store of payload objects through every call.  A call
    either returns (an error value or nil) or panics on a nil pointer. *)

From Stdlib Require Import ZArith List String Bool Lia.
From stdpp Require Import base gmap strings.

Local Open Scope string_scope.
Local Open Scope list_scope.
Local Open Scope Z_scope.

(** ** Machine integers *)

Module Int64.

Definition modulus : Z := 2 ^ 64.
Definition min_signed : Z := - 2 ^ 63.
Definition max_signed : Z := 2 ^ 63 - 1.

(** The value an [int64] holds after an arithmetic result [z]. *)
Definition wrap (z : Z) : Z := (z + 2 ^ 63) mod modulus - 2 ^ 63.

(** The value a [uint64] holds after an arithmetic result [z]. *)
Definition uwrap (z : Z) : Z := z mod modulus.

Definition in_range (z : Z) : Prop := min_signed <= z <= max_signed.

End Int64.

(** ** Package time of the Go standard library

    [time.Time] keeps a wall-clock word and an extension word.  When the
    top bit of [wall] is clear, [ext] is the number of seconds since
    January 1 of year 1 and the low 30 bits of [wall] are the
    nanoseconds.  When it is set, [wall] also carries 33 bits of seconds
    since 1885 and [ext] is a monotonic clock reading.  The location
    pointer plays no part in comparisons and is left out. *)

Module time.

Record Time : Type := mkTime { wall : Z; ext : Z }.

Definition hasMonotonic : Z := Z.shiftl 1 63.
Definition nsecMask : Z := Z.shiftl 1 30 - 1.
Definition nsecShift : Z := 30.
Definition secondsPerDay : Z := 86400.

Definition unixToInternal : Z :=
  (1969 * 365 + 1969 / 4 - 1969 / 100 + 1969 / 400) * secondsPerDay.
Definition wallToInternal : Z :=
  (1884 * 365 + 1884 / 4 - 1884 / 100 + 1884 / 400) * secondsPerDay.

(** [func (t *Time) nsec() int32] *)
Definition nsec (t : Time) : Z := Z.land (wall t) nsecMask.

(** [func (t *Time) sec() int64] *)
Definition sec (t : Time) : Z :=
  if negb (Z.land (wall t) hasMonotonic =? 0) then
    Int64.wrap
      (wallToInternal +
       Z.shiftr (Int64.uwrap (Z.shiftl (wall t) 1)) (nsecShift + 1))
  else ext t.

(** [func (t Time) After(u Time) bool] *)
Definition After (t u : Time) : bool :=
  if negb (Z.land (Z.land (wall t) (wall u)) hasMonotonic =? 0) then
    ext t >? ext u
  else
    let ts := sec t in
    let us := sec u in
    (ts >? us) || ((ts =? us) && (nsec t >? nsec u)).

(** [func (t Time) Before(u Time) bool] *)
Definition Before (t u : Time) : bool :=
  if negb (Z.land (Z.land (wall t) (wall u)) hasMonotonic =? 0) then
    ext t <? ext u
  else
    let ts := sec t in
    let us := sec u in
    (ts <? us) || ((ts =? us) && (nsec t <? nsec u)).

(** [func unixTime(sec int64, nsec int32) Time] *)
Definition unixTime (sec nsec : Z) : Time :=
  {| wall := Int64.uwrap nsec; ext := Int64.wrap (sec + unixToInternal) |}.

(** [func Unix(sec int64, nsec int64) Time]; Go's [/] truncates. *)
Definition Unix (sec nsec : Z) : Time :=
  if (nsec <? 0) || (nsec >=? 1000000000) then
    let n := Z.quot nsec 1000000000 in
    let sec := Int64.wrap (sec + n) in
    let nsec := Int64.wrap (nsec - n * 1000000000) in
    if nsec <? 0 then
      unixTime (Int64.wrap (sec - 1)) (Int64.wrap (nsec + 1000000000))
    else unixTime sec nsec
  else unixTime sec nsec.

(** The instant a [Time] denotes, as the comparison methods read it
    when no monotonic reading is shared: seconds, then nanoseconds.
    [instant_lt u t] says that [t] is strictly after [u]. *)
Definition instant_lt (u t : Time) : Prop :=
  sec u < sec t \/ (sec u = sec t /\ nsec u < nsec t).

(** A wall-clock word whose nanosecond field is a count of
    nanoseconds within one second. *)
Definition wf (t : Time) : Prop := 0 <= nsec t < 1000000000.

(** Nanoseconds since January 1 of year 1, unbounded. *)
Definition abs_nanos (t : Time) : Z := sec t * 1000000000 + nsec t.

(** [func (t Time) Unix() int64], before wrap-around. *)
Definition unix_seconds (t : Time) : Z := sec t - unixToInternal.

End time.

(** ** Package errors of the Go standard library

    [errors.New] returns a pointer to a freshly allocated [errorString];
    two error values are [==] exactly when they are the same pointer.
    The pointer of the n-th call made while the package variables are
    initialised is written [n]. *)

Record error : Type := errors_New { err_addr : positive; Error : string }.

Definition error_eqb (e1 e2 : error) : bool :=
  Pos.eqb (err_addr e1) (err_addr e2).

Definition ErrAudValidation : error := errors_New 1 "jwt: aud claim is invalid".
Definition ErrExpValidation : error := errors_New 2 "jwt: exp claim is invalid".
Definition ErrIatValidation : error := errors_New 3 "jwt: iat claim is invalid".
Definition ErrIssValidation : error := errors_New 4 "jwt: iss claim is invalid".
Definition ErrJtiValidation : error := errors_New 5 "jwt: jti claim is invalid".
Definition ErrNbfValidation : error := errors_New 6 "jwt: nbf claim is invalid".
Definition ErrSubValidation : error := errors_New 7 "jwt: sub claim is invalid".

(** The error variables the package declares, in declaration order. *)
Definition package_errors : list error :=
  [ ErrAudValidation; ErrExpValidation; ErrIatValidation; ErrIssValidation;
    ErrJtiValidation; ErrNbfValidation; ErrSubValidation ].

(** ** Payload *)

(** [type Audience []string] *)
Definition Audience : Type := list string.

(** Modelled from the spec: the declaration of [Payload] is not in
    validators.go.  Section 3 of the specification lists its fields:
    three strings, a sequence of strings and three integer Unix
    timestamps in seconds. *)
Record Payload : Type := mkPayload {
  Issuer : string;
  Subject : string;
  Audience_ : Audience;   (* the field [Audience], of type [Audience] *)
  ExpirationTime : Z;
  NotBefore : Z;
  IssuedAt : Z;
  JWTID : string
}.

(** ** Store, pointers and the call monad *)

Definition loc : Type := positive.

(** A pointer to a Payload: [None] is the nil pointer. *)
Definition ptr : Type := option loc.

Abbreviation Store := (gmap loc Payload).

Inductive outcome (A : Type) : Type :=
| Ok (a : A)
| Panic.
Arguments Ok {A} a.
Arguments Panic {A}.

(** A Go call: it reads and may write the store, and returns or panics. *)
Definition M (A : Type) : Type := Store -> outcome A * Store.

Definition ret {A} (a : A) : M A := fun st => (Ok a, st).

Definition bind {A B} (m : M A) (k : A -> M B) : M B :=
  fun st =>
    match m st with
    | (Ok a, st') => k a st'
    | (Panic, st') => (Panic, st')
    end.

Notation "'do' x <- m ; k" := (bind m (fun x => k))
  (at level 10, x name, m at level 100, k at level 200).

(** Reading through a pointer: [*p], nil panics. *)
Definition load (p : ptr) : M Payload :=
  fun st =>
    match p with
    | None => (Panic, st)
    | Some l =>
        match st !! l with
        | Some pl => (Ok pl, st)
        | None => (Panic, st)
        end
    end.

(** Writing through a pointer: [*p = pl], nil panics. *)
Definition store (p : ptr) (pl : Payload) : M unit :=
  fun st =>
    match p with
    | None => (Panic, st)
    | Some l =>
        match st !! l with
        | Some _ => (Ok tt, <[l := pl]> st)
        | None => (Panic, st)
        end
    end.

(** ** Validators *)

(** [type ValidatorFunc]: a function from a pointer to a Payload to an
    error; [None] is the nil error. *)
Definition ValidatorFunc : Type := ptr -> M (option error).

(** The inner loop of [AudienceValidator]: [true] when it reaches
    [return nil]. *)
Fixpoint range_clientAud (serverAud : string) (auds : Audience) : bool :=
  match auds with
  | [] => false
  | clientAud :: rest =>
      if String.eqb clientAud serverAud then true
      else range_clientAud serverAud rest
  end.

(** The outer loop of [AudienceValidator]; [p.Audience] is read each
    time the inner [range] statement starts. *)
Fixpoint range_serverAud (aud : Audience) (p : ptr) : M (option error) :=
  match aud with
  | [] => ret (Some ErrAudValidation)
  | serverAud :: rest =>
      do pl <- load p;
      if range_clientAud serverAud (Audience_ pl) then ret None
      else range_serverAud rest p
  end.

Definition AudienceValidator (aud : Audience) : ValidatorFunc :=
  fun p => range_serverAud aud p.

Definition ExpirationTimeValidator (now : time.Time) (validateZero : bool)
  : ValidatorFunc :=
  fun p =>
    do pl <- load p;
    let expint := ExpirationTime pl in
    if negb validateZero && (expint =? 0) then ret None
    else
      let exp := time.Unix expint 0 in
      if time.After now exp then ret (Some ErrExpValidation)
      else ret None.

Definition IssuedAtValidator (now : time.Time) : ValidatorFunc :=
  fun p =>
    do pl <- load p;
    let iat := time.Unix (IssuedAt pl) 0 in
    if time.Before now iat then ret (Some ErrIatValidation)
    else ret None.

Definition IssuerValidator (iss : string) : ValidatorFunc :=
  fun p =>
    do pl <- load p;
    if negb (String.eqb (Issuer pl) iss) then ret (Some ErrIssValidation)
    else ret None.

Definition JWTIDValidator (jti : string) : ValidatorFunc :=
  fun p =>
    do pl <- load p;
    if negb (String.eqb (JWTID pl) jti) then ret (Some ErrJtiValidation)
    else ret None.

Definition NotBeforeValidator (now : time.Time) : ValidatorFunc :=
  fun p =>
    do pl <- load p;
    let nbf := time.Unix (NotBefore pl) 0 in
    if time.Before now nbf then ret (Some ErrNbfValidation)
    else ret None.

Definition SubjectValidator (sub : string) : ValidatorFunc :=
  fun p =>
    do pl <- load p;
    if negb (String.eqb (Subject pl) sub) then ret (Some ErrSubValidation)
    else ret None.

(** ** The seven factories

    A configured validation unit is one of the seven factories applied
    to its configuration. *)

Inductive Config : Type :=
| CfgAudience (aud : Audience)
| CfgExpirationTime (now : time.Time) (validateZero : bool)
| CfgIssuedAt (now : time.Time)
| CfgIssuer (iss : string)
| CfgJWTID (jti : string)
| CfgNotBefore (now : time.Time)
| CfgSubject (sub : string).

Definition unit_of (c : Config) : ValidatorFunc :=
  match c with
  | CfgAudience aud => AudienceValidator aud
  | CfgExpirationTime now validateZero => ExpirationTimeValidator now validateZero
  | CfgIssuedAt now => IssuedAtValidator now
  | CfgIssuer iss => IssuerValidator iss
  | CfgJWTID jti => JWTIDValidator jti
  | CfgNotBefore now => NotBeforeValidator now
  | CfgSubject sub => SubjectValidator sub
  end.

(** The error variable that the body of each factory names. *)
Definition own_error (c : Config) : error :=
  match c with
  | CfgAudience _ => ErrAudValidation
  | CfgExpirationTime _ _ => ErrExpValidation
  | CfgIssuedAt _ => ErrIatValidation
  | CfgIssuer _ => ErrIssValidation
  | CfgJWTID _ => ErrJtiValidation
  | CfgNotBefore _ => ErrNbfValidation
  | CfgSubject _ => ErrSubValidation
  end.

(** ** Pipeline *)

(** Modelled from the spec: the pipeline runner is not in validators.go.
    Section 4.2 of the specification: given a payload and an ordered
    sequence of units, evaluate units in the given order; stop and
    return the first non-nil failure; if all units pass, return
    success. *)
Fixpoint Validate (units : list ValidatorFunc) (p : ptr) : M (option error) :=
  match units with
  | [] => ret None
  | u :: rest =>
      do err <- u p;
      match err with
      | Some e => ret (Some e)
      | None => Validate rest p
      end
  end.

(** [passes p units st st1]: run in order from store [st], every unit
    of [units] returns nil, and the store they leave is [st1]. *)
Fixpoint passes (p : ptr) (units : list ValidatorFunc) (st st1 : Store) : Prop :=
  match units with
  | [] => st1 = st
  | u :: rest => exists st', u p st = (Ok None, st') /\ passes p rest st' st1
  end.

(** A stub unit that counts its executions in the [NotBefore] field of
    the payload and then fails with [e]. *)
Definition counting_stub (e : error) : ValidatorFunc :=
  fun p =>
    do pl <- load p;
    do _ <- store p
         {| Issuer := Issuer pl; Subject := Subject pl;
            Audience_ := Audience_ pl; ExpirationTime := ExpirationTime pl;
            NotBefore := NotBefore pl + 1; IssuedAt := IssuedAt pl;
            JWTID := JWTID pl |};
    ret (Some e).

(** ** Words of the claims *)

(** Some string occurs both in the whitelist and in the audience. *)
Definition overlap (W A : Audience) : Prop := exists s, In s W /\ In s A.

(** The time [t] lies strictly after second [s] of the Unix epoch:
    its second count is larger, or equal with nanoseconds to spare. *)
Definition after_unix_second (s : Z) (t : time.Time) : Prop :=
  s < time.unix_seconds t \/ (s = time.unix_seconds t /\ 0 < time.nsec t).

(** The time [t] lies strictly before second [s] of the Unix epoch. *)
Definition before_unix_second (s : Z) (t : time.Time) : Prop :=
  time.unix_seconds t < s.

(** The second count [s] is one that [Unix] represents: adding
    [unixToInternal] stays within [int64]. *)
Definition Unix_exact (s : Z) : Prop :=
  Int64.in_range (s + time.unixToInternal).

(** ** Sample data *)

Definition sample_payload : Payload :=
  {| Issuer := "auth.example.com"; Subject := "";
     Audience_ := ["svcA"; "svcB"]; ExpirationTime := 1000;
     NotBefore := 0; IssuedAt := 500; JWTID := "id-1" |}.

Definition sample_store : Store := {[ 1%positive := sample_payload ]}.

(** [time.Unix(2000, 0)] and [time.Unix(0, 0)] *)
Definition t2000 : time.Time := time.Unix 2000 0.
Definition epoch : time.Time := time.Unix 0 0.

(** A payload with every field at its zero value. *)
Definition zero_exp_payload : Payload :=
  {| Issuer := ""; Subject := ""; Audience_ := []; ExpirationTime := 0;
     NotBefore := 0; IssuedAt := 0; JWTID := "" |}.

Definition zero_store : Store := {[ 2%positive := zero_exp_payload ]}.

(** [sample_store] after one execution of a counting stub. *)
Definition counted_store : Store :=
  <[ 1%positive :=
       {| Issuer := "auth.example.com"; Subject := "";
          Audience_ := ["svcA"; "svcB"]; ExpirationTime := 1000;
          NotBefore := 1; IssuedAt := 500; JWTID := "id-1" |} ]> sample_store.

(** [time.Unix(-5, 0)]: five seconds before the epoch. *)
Definition before_epoch : time.Time := time.Unix (-5) 0.

(** ** Further words and sample data *)

(** The pointer refers to a payload of the store. *)
Definition refers (p : ptr) (st : Store) : Prop :=
  exists l pl, p = Some l /\ st !! l = Some pl.

(** The two payloads agree on the field that the body of the factory
    reads. *)
Definition claim_field_agrees (c : Config) (pl pl' : Payload) : Prop :=
  match c with
  | CfgAudience _ => Audience_ pl = Audience_ pl'
  | CfgExpirationTime _ _ => ExpirationTime pl = ExpirationTime pl'
  | CfgIssuedAt _ => IssuedAt pl = IssuedAt pl'
  | CfgIssuer _ => Issuer pl = Issuer pl'
  | CfgJWTID _ => JWTID pl = JWTID pl'
  | CfgNotBefore _ => NotBefore pl = NotBefore pl'
  | CfgSubject _ => Subject pl = Subject pl'
  end.

(** [t'] is not before [t]. *)
Definition instant_le (t t' : time.Time) : Prop := ~ time.instant_lt t' t.

(** The second counts that [Unix] cannot represent: adding
    [unixToInternal] leaves the range of [int64]. *)
Definition beyond_Unix (s : Z) : Prop :=
  Int64.max_signed - time.unixToInternal < s <= Int64.max_signed.

(** A time as [time.Now] builds it: the monotonic bit is set, [wall]
    holds 4000000000 seconds since 1885 and no nanoseconds, and [ext]
    holds the monotonic reading [m]. *)
Definition with_monotonic (m : Z) : time.Time :=
  {| time.wall := Z.lor time.hasMonotonic (Z.shiftl 4000000000 30);
     time.ext := m |}.

(** A payload whose three timestamps are the largest [int64]. *)
Definition far_payload : Payload :=
  {| Issuer := ""; Subject := ""; Audience_ := [];
     ExpirationTime := Int64.max_signed; NotBefore := Int64.max_signed;
     IssuedAt := Int64.max_signed; JWTID := "" |}.

Definition far_store : Store := {[ 3%positive := far_payload ]}.

(** A payload valid from second 500 to second 1000. *)
Definition window_payload : Payload :=
  {| Issuer := "auth.example.com"; Subject := "alice";
     Audience_ := ["svcB"; "svcC"]; ExpirationTime := 1000;
     NotBefore := 500; IssuedAt := 500; JWTID := "id-2" |}.

Definition window_store : Store := {[ 4%positive := window_payload ]}.

(** ** The call monad *)

Section MonadFacts.

Context {A B : Type}.

Lemma bind_ret_l (a : A) (k : A -> M B) (st : Store) :
  bind (ret a) k st = k a st.
Proof. reflexivity. Qed.

Lemma bind_ok (m : M A) (k : A -> M B) (st st' : Store) (a : A) :
  m st = (Ok a, st') -> bind m k st = k a st'.
Proof. intros H. unfold bind. now rewrite H. Qed.

Lemma bind_panic (m : M A) (k : A -> M B) (st st' : Store) :
  m st = (Panic, st') -> bind m k st = (Panic, st').
Proof. intros H. unfold bind. now rewrite H. Qed.

End MonadFacts.

Lemma load_some (st : Store) (l : loc) (pl : Payload) :
  st !! l = Some pl -> load (Some l) st = (Ok pl, st).
Proof. intros H. unfold load. now rewrite H. Qed.

(** A read returns the payload the pointer refers to, or panics; it
    never writes. *)
Lemma load_cases (p : ptr) (st : Store) :
  load p st = (Panic, st) \/ exists pl, load p st = (Ok pl, st).
Proof.
  destruct p as [l|]; simpl; [|now left].
  destruct (st !! l) as [pl|]; [right; now exists pl | now left].
Qed.

(** ** Comparing instants *)

Module timeFacts.
Import time.

Lemma Unix_zero_nsec (s : Z) : Unix s 0 = unixTime s 0.
Proof. reflexivity. Qed.

Lemma wall_Unix (s : Z) : wall (Unix s 0) = 0.
Proof. reflexivity. Qed.

Lemma nsec_Unix (s : Z) : nsec (Unix s 0) = 0.
Proof. reflexivity. Qed.

Lemma sec_Unix (s : Z) : sec (Unix s 0) = Int64.wrap (s + unixToInternal).
Proof. reflexivity. Qed.

(** Within the range of [int64] the conversion is exact. *)
Lemma sec_Unix_exact (s : Z) :
  Int64.in_range (s + unixToInternal) ->
  sec (Unix s 0) = s + unixToInternal.
Proof.
  intros [Hlo Hhi]. rewrite sec_Unix. unfold Int64.wrap, Int64.modulus.
  unfold Int64.min_signed, Int64.max_signed in *.
  rewrite Z.mod_small; lia.
Qed.

(** The result of [Unix] carries no monotonic reading, so a comparison
    with it always reads the wall clock. *)
Lemma no_shared_monotonic (t : Time) (s : Z) :
  Z.land (Z.land (wall t) (wall (Unix s 0))) hasMonotonic = 0.
Proof. rewrite wall_Unix, Z.land_0_r. reflexivity. Qed.

Lemma After_Unix (t : Time) (s : Z) :
  After t (Unix s 0) = true <-> instant_lt (Unix s 0) t.
Proof.
  unfold After, instant_lt. rewrite no_shared_monotonic. simpl negb. cbv iota zeta.
  rewrite orb_true_iff, andb_true_iff.
  rewrite Z.gtb_ltb, Z.ltb_lt, Z.eqb_eq, Z.gtb_ltb, Z.ltb_lt.
  intuition congruence.
Qed.

Lemma Before_Unix (t : Time) (s : Z) :
  Before t (Unix s 0) = true <-> instant_lt t (Unix s 0).
Proof.
  unfold Before, instant_lt. rewrite no_shared_monotonic. simpl negb. cbv iota zeta.
  rewrite orb_true_iff, andb_true_iff, !Z.ltb_lt, Z.eqb_eq.
  reflexivity.
Qed.

(** For well-formed times the order on instants is the order on
    nanosecond counts. *)
Lemma instant_lt_abs_nanos (u t : Time) :
  wf u -> wf t -> (instant_lt u t <-> abs_nanos u < abs_nanos t).
Proof. unfold wf, instant_lt, abs_nanos. intros Hu Ht. lia. Qed.

(** In Unix seconds: [t] is after [Unix s 0] when its second count is
    larger, or equal with a positive nanosecond part. *)
Lemma instant_lt_Unix_l (t : Time) (s : Z) :
  Int64.in_range (s + unixToInternal) ->
  (instant_lt (Unix s 0) t <->
   s < unix_seconds t \/ (s = unix_seconds t /\ 0 < nsec t)).
Proof.
  intros Hr. unfold instant_lt, unix_seconds.
  rewrite sec_Unix_exact by exact Hr. rewrite nsec_Unix. lia.
Qed.

Lemma nsec_nonneg (t : Time) : 0 <= nsec t.
Proof.
  unfold nsec. apply Z.land_nonneg. right. now vm_compute.
Qed.

Lemma instant_lt_Unix_r (t : Time) (s : Z) :
  Int64.in_range (s + unixToInternal) ->
  (instant_lt t (Unix s 0) <-> unix_seconds t < s).
Proof.
  intros Hr. pose proof (nsec_nonneg t) as Hn.
  unfold instant_lt, unix_seconds.
  rewrite sec_Unix_exact by exact Hr. rewrite nsec_Unix. lia.
Qed.

End timeFacts.

(** [Unix] adds [unixToInternal] in [int64]: a second count within
    [unixToInternal] of the largest [int64] wraps around to an instant
    before the epoch. *)
Lemma Unix_wraps : time.instant_lt (time.Unix Int64.max_signed 0) epoch.
Proof. left. reflexivity. Qed.

(** ** Audience *)

Lemma range_clientAud_true (serverAud : string) (auds : Audience) :
  range_clientAud serverAud auds = true <-> In serverAud auds.
Proof.
  induction auds as [|clientAud rest IH]; simpl.
  - split; [discriminate | tauto].
  - destruct (String.eqb clientAud serverAud) eqn:E.
    + apply String.eqb_eq in E. tauto.
    + apply String.eqb_neq in E. rewrite IH. split; [tauto|].
      intros [H|H]; [contradiction | exact H].
Qed.

Lemma range_serverAud_some (aud : Audience) (st : Store) (l : loc) (pl : Payload) :
  st !! l = Some pl ->
  (overlap aud (Audience_ pl) /\ range_serverAud aud (Some l) st = (Ok None, st)) \/
  (~ overlap aud (Audience_ pl) /\
   range_serverAud aud (Some l) st = (Ok (Some ErrAudValidation), st)).
Proof.
  intros Hl. induction aud as [|serverAud rest IH]; simpl.
  - right. split; [|reflexivity]. intros (s & [] & _).
  - rewrite (bind_ok _ _ _ _ _ (load_some _ _ _ Hl)).
    destruct (range_clientAud serverAud (Audience_ pl)) eqn:E.
    + left. split; [|reflexivity]. exists serverAud.
      apply range_clientAud_true in E. simpl. tauto.
    + destruct IH as [[Ho Hr]|[Ho Hr]].
      * left. split; [|exact Hr]. destruct Ho as (s & Hs & Hs').
        exists s. simpl. tauto.
      * right. split; [|exact Hr]. intros (s & [Hs|Hs] & Hs').
        -- subst s. apply range_clientAud_true in Hs'. congruence.
        -- apply Ho. now exists s.
Qed.

(** The order of the whitelist and of the audience does not matter. *)
Lemma overlap_Permutation (W W' A A' : Audience) :
  Permutation W W' -> Permutation A A' -> overlap W A -> overlap W' A'.
Proof.
  intros HW HA (s & Hs & Hs'). exists s. split.
  - now apply (Permutation_in _ HW).
  - now apply (Permutation_in _ HA).
Qed.

(** C1.  For every whitelist [W] and every payload, the validator that
    [AudienceValidator W] returns succeeds (returns nil) if and only if
    some string occurs in both [W] and the payload's audience, whatever
    the order of either sequence; otherwise it returns the audience
    error. *)
Theorem AudienceValidator_overlap
    (W : Audience) (st : Store) (l : loc) (pl : Payload) :
  st !! l = Some pl ->
  (AudienceValidator W (Some l) st = (Ok None, st)
     <-> overlap W (Audience_ pl)) /\
  (~ overlap W (Audience_ pl) ->
     AudienceValidator W (Some l) st = (Ok (Some ErrAudValidation), st)) /\
  (forall (W' : Audience) (st' : Store) (pl' : Payload),
     Permutation W W' ->
     Permutation (Audience_ pl) (Audience_ pl') ->
     st' !! l = Some pl' ->
     fst (AudienceValidator W' (Some l) st')
       = fst (AudienceValidator W (Some l) st)).
Proof.
  intros Hl. unfold AudienceValidator.
  destruct (range_serverAud_some W st l pl Hl) as [[Ho Hr]|[Ho Hr]];
    rewrite Hr; (split; [|split]).
  - tauto.
  - intros Hn. contradiction.
  - intros W' st' pl' HW HA Hl'.
    destruct (range_serverAud_some W' st' l pl' Hl') as [[Ho' Hr']|[Ho' Hr']];
      rewrite Hr'; [reflexivity|].
    exfalso. apply Ho'. exact (overlap_Permutation _ _ _ _ HW HA Ho).
  - split; [discriminate | intros H; contradiction].
  - reflexivity.
  - intros W' st' pl' HW HA Hl'.
    destruct (range_serverAud_some W' st' l pl' Hl') as [[Ho' Hr']|[Ho' Hr']];
      rewrite Hr'; [|reflexivity].
    exfalso. apply Ho.
    exact (overlap_Permutation _ _ _ _ (Permutation_sym HW)
             (Permutation_sym HA) Ho').
Qed.

Lemma AudienceValidator_overlap_witness :
  sample_store !! 1%positive = Some sample_payload /\
  (AudienceValidator ["svcB"; "svcC"] (Some 1%positive) sample_store
     = (Ok None, sample_store)
   <-> overlap ["svcB"; "svcC"] (Audience_ sample_payload)).
Proof.
  split; [reflexivity|].
  apply (AudienceValidator_overlap ["svcB"; "svcC"] sample_store 1%positive
           sample_payload).
  reflexivity.
Defined.

(** ** Time claims *)

Section TimeValidators.

Variables (now : time.Time) (st : Store) (l : loc) (pl : Payload).
Hypothesis Hl : st !! l = Some pl.

Lemma ExpirationTimeValidator_run (validateZero : bool) :
  ExpirationTimeValidator now validateZero (Some l) st =
  (Ok (if negb validateZero && (ExpirationTime pl =? 0) then None
       else if time.After now (time.Unix (ExpirationTime pl) 0)
            then Some ErrExpValidation else None), st).
Proof.
  unfold ExpirationTimeValidator.
  rewrite (bind_ok _ _ _ _ _ (load_some _ _ _ Hl)). cbv zeta.
  destruct (negb validateZero && (ExpirationTime pl =? 0)); [reflexivity|].
  destruct (time.After now _); reflexivity.
Qed.

Lemma IssuedAtValidator_run :
  IssuedAtValidator now (Some l) st =
  (Ok (if time.Before now (time.Unix (IssuedAt pl) 0)
       then Some ErrIatValidation else None), st).
Proof.
  unfold IssuedAtValidator.
  rewrite (bind_ok _ _ _ _ _ (load_some _ _ _ Hl)). cbv zeta.
  destruct (time.Before now _); reflexivity.
Qed.

Lemma NotBeforeValidator_run :
  NotBeforeValidator now (Some l) st =
  (Ok (if time.Before now (time.Unix (NotBefore pl) 0)
       then Some ErrNbfValidation else None), st).
Proof.
  unfold NotBeforeValidator.
  rewrite (bind_ok _ _ _ _ _ (load_some _ _ _ Hl)). cbv zeta.
  destruct (time.Before now _); reflexivity.
Qed.

End TimeValidators.

(** A boolean test decides between the claim error and nil. *)
Lemma if_error_iff (b : bool) (e : error) (st : Store) (P : Prop) :
  (b = true <-> P) ->
  ((Ok (if b then Some e else None), st) = (Ok (Some e), st) <-> P) /\
  (~ P -> (Ok (if b then Some e else @None error), st) = (Ok None, st)).
Proof.
  intros HP. destruct b; split.
  - split; [intros _; now apply HP | reflexivity].
  - intros Hn. exfalso. apply Hn. now apply HP.
  - split; [discriminate|]. intros H. apply HP in H. discriminate.
  - reflexivity.
Qed.

(** In Unix seconds: what [After] and [Before] decide against a second
    count that [Unix] represents. *)
Lemma After_Unix_seconds (now : time.Time) (s : Z) :
  Unix_exact s ->
  (time.After now (time.Unix s 0) = true <-> after_unix_second s now).
Proof.
  intros Hr. rewrite timeFacts.After_Unix.
  exact (timeFacts.instant_lt_Unix_l now s Hr).
Qed.

Lemma Before_Unix_seconds (now : time.Time) (s : Z) :
  Unix_exact s ->
  (time.Before now (time.Unix s 0) = true <-> before_unix_second s now).
Proof.
  intros Hr. rewrite timeFacts.Before_Unix.
  exact (timeFacts.instant_lt_Unix_r now s Hr).
Qed.

(** C2.  For every reference time, flag [validateZero] and
    payload whose expiration time is a second count that [Unix]
    represents (adding 62135596800 stays within [int64]): if the
    expiration time is 0 and [validateZero] is false, the validator
    that [ExpirationTimeValidator] returns succeeds whatever the
    reference time; otherwise it returns the expiration error if and
    only if the reference time is strictly after that second of the
    Unix epoch, and succeeds otherwise. *)
Theorem ExpirationTimeValidator_spec
    (now : time.Time) (validateZero : bool)
    (st : Store) (l : loc) (pl : Payload) :
  st !! l = Some pl ->
  Unix_exact (ExpirationTime pl) ->
  let run := ExpirationTimeValidator now validateZero (Some l) st in
  (ExpirationTime pl = 0 /\ validateZero = false -> run = (Ok None, st)) /\
  (~ (ExpirationTime pl = 0 /\ validateZero = false) ->
     (run = (Ok (Some ErrExpValidation), st)
        <-> after_unix_second (ExpirationTime pl) now) /\
     (~ after_unix_second (ExpirationTime pl) now -> run = (Ok None, st))).
Proof.
  intros Hl Hr run. subst run.
  rewrite (ExpirationTimeValidator_run now st l pl Hl). split.
  - intros [He Hz]. rewrite He, Hz. reflexivity.
  - intros Hskip.
    assert (negb validateZero && (ExpirationTime pl =? 0) = false) as ->.
    { apply not_true_is_false. intros H. apply andb_true_iff in H.
      destruct H as [Hz He]. apply Hskip. split.
      - now apply Z.eqb_eq.
      - now destruct validateZero. }
    apply if_error_iff. exact (After_Unix_seconds now _ Hr).
Qed.

Lemma ExpirationTimeValidator_spec_witness :
  sample_store !! 1%positive = Some sample_payload /\
  Unix_exact (ExpirationTime sample_payload) /\
  ExpirationTimeValidator t2000 false (Some 1%positive) sample_store
    = (Ok (Some ErrExpValidation), sample_store).
Proof.
  assert (Unix_exact (ExpirationTime sample_payload)) as Hr.
  { vm_compute. split; discriminate. }
  split; [reflexivity|]. split; [exact Hr|].
  destruct (ExpirationTimeValidator_spec t2000 false sample_store 1%positive
              sample_payload eq_refl Hr) as [_ H].
  apply H.
  - intros [H0 _]. discriminate H0.
  - left. reflexivity.
Defined.

(** The condition is needed: the largest [int64] as
    expiration time names the far future, the reference time
    [Unix(2000, 0)] is not after it, and yet the validator returns the
    expiration error, because [Unix] wraps around. *)
Lemma ExpirationTimeValidator_unrepresentable :
  far_store !! 3%positive = Some far_payload /\
  ~ (ExpirationTime far_payload = 0 /\ false = false) /\
  ~ (ExpirationTimeValidator t2000 false (Some 3%positive) far_store
       = (Ok (Some ErrExpValidation), far_store)
     <-> after_unix_second (ExpirationTime far_payload) t2000).
Proof.
  split; [reflexivity|]. split; [intros [H _]; discriminate H|].
  intros [H _].
  assert (after_unix_second (ExpirationTime far_payload) t2000) as Ha
    by (apply H; reflexivity).
  revert Ha. unfold after_unix_second. vm_compute.
  intros [Ha|[Ha _]]; discriminate Ha.
Qed.

(** C10.  With [validateZero] true, a payload whose expiration time is
    0 is not skipped: the validator returns the expiration error if and
    only if the reference time is strictly after [Unix(0, 0)], the
    epoch; in particular it fails for every reference time that lies
    after 1970. *)
Theorem ExpirationTimeValidator_zero_validated
    (now : time.Time) (st : Store) (l : loc) (pl : Payload) :
  st !! l = Some pl ->
  ExpirationTime pl = 0 ->
  let run := ExpirationTimeValidator now true (Some l) st in
  (run = (Ok (Some ErrExpValidation), st)
     <-> time.instant_lt (time.Unix 0 0) now) /\
  (~ time.instant_lt (time.Unix 0 0) now -> run = (Ok None, st)) /\
  (time.instant_lt (time.Unix 0 0) now
     <-> 0 < time.unix_seconds now
         \/ (time.unix_seconds now = 0 /\ 0 < time.nsec now)).
Proof.
  intros Hl He run. subst run.
  rewrite (ExpirationTimeValidator_run now st l pl Hl), He. simpl andb.
  cbv iota. split; [|split].
  - apply if_error_iff. apply timeFacts.After_Unix.
  - apply if_error_iff. apply timeFacts.After_Unix.
  - rewrite timeFacts.instant_lt_Unix_l by (now vm_compute). lia.
Qed.

Lemma ExpirationTimeValidator_zero_validated_witness :
  zero_store !! 2%positive
    = Some zero_exp_payload /\
  ExpirationTime zero_exp_payload = 0 /\
  ExpirationTimeValidator t2000 true (Some 2%positive)
    zero_store
    = (Ok (Some ErrExpValidation), zero_store).
Proof.
  split; [reflexivity|]. split; [reflexivity|].
  destruct (ExpirationTimeValidator_zero_validated t2000
              zero_store 2%positive zero_exp_payload
              eq_refl eq_refl) as [H _].
  apply H. left. reflexivity.
Defined.

(** C4.  For every reference time and every payload whose
    [IssuedAt] is a second count that [Unix] represents (adding
    62135596800 stays within [int64]), the validator that
    [IssuedAtValidator] returns yields the issued-at error if and only
    if the reference time is strictly before that second of the Unix
    epoch, and succeeds otherwise; a zero [IssuedAt] is checked like
    any other value. *)
Theorem IssuedAtValidator_spec
    (now : time.Time) (st : Store) (l : loc) (pl : Payload) :
  st !! l = Some pl ->
  Unix_exact (IssuedAt pl) ->
  let run := IssuedAtValidator now (Some l) st in
  (run = (Ok (Some ErrIatValidation), st)
     <-> before_unix_second (IssuedAt pl) now) /\
  (~ before_unix_second (IssuedAt pl) now -> run = (Ok None, st)).
Proof.
  intros Hl Hr run. subst run.
  rewrite (IssuedAtValidator_run now st l pl Hl).
  apply if_error_iff. exact (Before_Unix_seconds now _ Hr).
Qed.

Lemma IssuedAtValidator_spec_witness :
  zero_store !! 2%positive = Some zero_exp_payload /\
  Unix_exact (IssuedAt zero_exp_payload) /\
  IssuedAtValidator before_epoch (Some 2%positive) zero_store
    = (Ok (Some ErrIatValidation), zero_store).
Proof.
  assert (Unix_exact (IssuedAt zero_exp_payload)) as Hr.
  { vm_compute. split; discriminate. }
  split; [reflexivity|]. split; [exact Hr|].
  destruct (IssuedAtValidator_spec before_epoch zero_store 2%positive
              zero_exp_payload eq_refl Hr) as [H _].
  apply H. reflexivity.
Defined.

(** The condition is needed: the reference time
    [Unix(2000, 0)] is before the largest [int64] taken as issued-at
    second, and yet the validator succeeds, because [Unix] wraps
    around. *)
Lemma IssuedAtValidator_unrepresentable :
  far_store !! 3%positive = Some far_payload /\
  ~ (IssuedAtValidator t2000 (Some 3%positive) far_store
       = (Ok (Some ErrIatValidation), far_store)
     <-> before_unix_second (IssuedAt far_payload) t2000).
Proof.
  split; [reflexivity|]. intros [_ H].
  assert (before_unix_second (IssuedAt far_payload) t2000) as Hb
    by reflexivity.
  specialize (H Hb). discriminate H.
Qed.

(** C5.  For every reference time and every payload whose
    [NotBefore] is a second count that [Unix] represents (adding
    62135596800 stays within [int64]), the validator that
    [NotBeforeValidator] returns yields the not-before error if and
    only if the reference time is strictly before that second of the
    Unix epoch, and succeeds otherwise; a zero [NotBefore] is checked
    like any other value. *)
Theorem NotBeforeValidator_spec
    (now : time.Time) (st : Store) (l : loc) (pl : Payload) :
  st !! l = Some pl ->
  Unix_exact (NotBefore pl) ->
  let run := NotBeforeValidator now (Some l) st in
  (run = (Ok (Some ErrNbfValidation), st)
     <-> before_unix_second (NotBefore pl) now) /\
  (~ before_unix_second (NotBefore pl) now -> run = (Ok None, st)).
Proof.
  intros Hl Hr run. subst run.
  rewrite (NotBeforeValidator_run now st l pl Hl).
  apply if_error_iff. exact (Before_Unix_seconds now _ Hr).
Qed.

Lemma NotBeforeValidator_spec_witness :
  zero_store !! 2%positive = Some zero_exp_payload /\
  Unix_exact (NotBefore zero_exp_payload) /\
  NotBeforeValidator before_epoch (Some 2%positive) zero_store
    = (Ok (Some ErrNbfValidation), zero_store).
Proof.
  assert (Unix_exact (NotBefore zero_exp_payload)) as Hr.
  { vm_compute. split; discriminate. }
  split; [reflexivity|]. split; [exact Hr|].
  destruct (NotBeforeValidator_spec before_epoch zero_store 2%positive
              zero_exp_payload eq_refl Hr) as [H _].
  apply H. reflexivity.
Defined.

(** The condition is needed: the reference time
    [Unix(2000, 0)] is before the largest [int64] taken as not-before
    second, and yet the validator succeeds, because [Unix] wraps
    around. *)
Lemma NotBeforeValidator_unrepresentable :
  far_store !! 3%positive = Some far_payload /\
  ~ (NotBeforeValidator t2000 (Some 3%positive) far_store
       = (Ok (Some ErrNbfValidation), far_store)
     <-> before_unix_second (NotBefore far_payload) t2000).
Proof.
  split; [reflexivity|]. intros [_ H].
  assert (before_unix_second (NotBefore far_payload) t2000) as Hb
    by reflexivity.
  specialize (H Hb). discriminate H.
Qed.

(** ** Exact-match claims *)

Lemma exact_match_iff (field s : string) (e : error) (st : Store) :
  ((Ok (if negb (String.eqb field s) then Some e else None), st)
     = (Ok (Some e), st) <-> field <> s) /\
  ((Ok (if negb (String.eqb field s) then Some e else None), st)
     = (Ok None, st) <-> field = s).
Proof.
  destruct (String.eqb field s) eqn:E; simpl.
  - apply String.eqb_eq in E. split; split; try discriminate; try tauto.
  - apply String.eqb_neq in E. split; split; try discriminate; try tauto.
Qed.

Lemma if_ret {A : Type} (b : bool) (x y : A) (st : Store) :
  (if b then ret x else ret y) st = (Ok (if b then x else y), st).
Proof. destruct b; reflexivity. Qed.

Section ExactMatchValidators.

Variables (st : Store) (l : loc) (pl : Payload).
Hypothesis Hl : st !! l = Some pl.

Lemma IssuerValidator_run (iss : string) :
  IssuerValidator iss (Some l) st =
  (Ok (if negb (String.eqb (Issuer pl) iss)
       then Some ErrIssValidation else None), st).
Proof.
  unfold IssuerValidator.
  rewrite (bind_ok _ _ _ _ _ (load_some _ _ _ Hl)). apply if_ret.
Qed.

Lemma JWTIDValidator_run (jti : string) :
  JWTIDValidator jti (Some l) st =
  (Ok (if negb (String.eqb (JWTID pl) jti)
       then Some ErrJtiValidation else None), st).
Proof.
  unfold JWTIDValidator.
  rewrite (bind_ok _ _ _ _ _ (load_some _ _ _ Hl)). apply if_ret.
Qed.

Lemma SubjectValidator_run (sub : string) :
  SubjectValidator sub (Some l) st =
  (Ok (if negb (String.eqb (Subject pl) sub)
       then Some ErrSubValidation else None), st).
Proof.
  unfold SubjectValidator.
  rewrite (bind_ok _ _ _ _ _ (load_some _ _ _ Hl)). apply if_ret.
Qed.

End ExactMatchValidators.

(** C6.  For every expected string [s] and every payload, each of the
    validators that [IssuerValidator s], [SubjectValidator s] and
    [JWTIDValidator s] return yields its claim's error if and only if
    the payload field differs from [s], and succeeds if and only if the
    field equals [s]; the empty string is matched like any other. *)
Theorem exact_match_validators_spec
    (s : string) (st : Store) (l : loc) (pl : Payload) :
  st !! l = Some pl ->
  ((IssuerValidator s (Some l) st = (Ok (Some ErrIssValidation), st)
      <-> Issuer pl <> s) /\
   (IssuerValidator s (Some l) st = (Ok None, st) <-> Issuer pl = s)) /\
  ((SubjectValidator s (Some l) st = (Ok (Some ErrSubValidation), st)
      <-> Subject pl <> s) /\
   (SubjectValidator s (Some l) st = (Ok None, st) <-> Subject pl = s)) /\
  ((JWTIDValidator s (Some l) st = (Ok (Some ErrJtiValidation), st)
      <-> JWTID pl <> s) /\
   (JWTIDValidator s (Some l) st = (Ok None, st) <-> JWTID pl = s)).
Proof.
  intros Hl.
  rewrite (IssuerValidator_run st l pl Hl), (SubjectValidator_run st l pl Hl),
    (JWTIDValidator_run st l pl Hl).
  repeat split; apply exact_match_iff.
Qed.

Lemma exact_match_validators_spec_witness :
  zero_store !! 2%positive = Some zero_exp_payload /\
  IssuerValidator "" (Some 2%positive) zero_store = (Ok None, zero_store) /\
  SubjectValidator "" (Some 2%positive) zero_store = (Ok None, zero_store) /\
  JWTIDValidator "" (Some 2%positive) zero_store = (Ok None, zero_store).
Proof.
  split; [reflexivity|].
  destruct (exact_match_validators_spec "" zero_store 2%positive
              zero_exp_payload eq_refl)
    as [[_ Hi] [[_ Hs] [_ Hj]]].
  split; [|split].
  - apply Hi. reflexivity.
  - apply Hs. reflexivity.
  - apply Hj. reflexivity.
Defined.

(** ** What any configured unit can do *)

(** Splits on what the read at the head of a validator body yields. *)
Ltac run_load p st :=
  destruct (load_cases p st) as [Hp|[pl Hp]];
  [ rewrite (bind_panic _ _ _ _ Hp); left; reflexivity
  | rewrite (bind_ok _ _ _ _ _ Hp) ].

Lemma range_serverAud_cases (aud : Audience) (p : ptr) (st : Store) :
  range_serverAud aud p st = (Panic, st) \/
  range_serverAud aud p st = (Ok None, st) \/
  range_serverAud aud p st = (Ok (Some ErrAudValidation), st).
Proof.
  induction aud as [|serverAud rest IH]; simpl.
  - right. right. reflexivity.
  - run_load p st.
    destruct (range_clientAud serverAud (Audience_ pl)); [|exact IH].
    right. left. reflexivity.
Qed.

(** A configured unit panics, returns nil or returns the error of its
    own claim, and in each case leaves the store as it found it. *)
Lemma unit_of_cases (c : Config) (p : ptr) (st : Store) :
  unit_of c p st = (Panic, st) \/
  unit_of c p st = (Ok None, st) \/
  unit_of c p st = (Ok (Some (own_error c)), st).
Proof.
  destruct c; simpl.
  - apply range_serverAud_cases.
  - unfold ExpirationTimeValidator. run_load p st. cbv zeta.
    destruct (negb validateZero && _); [right; left; reflexivity|].
    destruct (time.After _ _); right; [right|left]; reflexivity.
  - unfold IssuedAtValidator. run_load p st. cbv zeta.
    destruct (time.Before _ _); right; [right|left]; reflexivity.
  - unfold IssuerValidator. run_load p st.
    destruct (negb _); right; [right|left]; reflexivity.
  - unfold JWTIDValidator. run_load p st.
    destruct (negb _); right; [right|left]; reflexivity.
  - unfold NotBeforeValidator. run_load p st. cbv zeta.
    destruct (time.Before _ _); right; [right|left]; reflexivity.
  - unfold SubjectValidator. run_load p st.
    destruct (negb _); right; [right|left]; reflexivity.
Qed.

Lemma unit_of_store (c : Config) (p : ptr) (st : Store) :
  snd (unit_of c p st) = st.
Proof.
  destruct (unit_of_cases c p st) as [H|[H|H]]; rewrite H; reflexivity.
Qed.

(** On a pointer to a payload no unit panics. *)
Lemma unit_of_returns (c : Config) (st : Store) (l : loc) (pl : Payload) :
  st !! l = Some pl ->
  unit_of c (Some l) st = (Ok None, st) \/
  unit_of c (Some l) st = (Ok (Some (own_error c)), st).
Proof.
  intros Hl. destruct c; simpl.
  - unfold AudienceValidator.
    destruct (range_serverAud_some aud st l pl Hl) as [[_ H]|[_ H]]; auto.
  - rewrite (ExpirationTimeValidator_run now st l pl Hl).
    destruct (negb validateZero && _); [now left|].
    destruct (time.After _ _); [now right | now left].
  - rewrite (IssuedAtValidator_run now st l pl Hl).
    destruct (time.Before _ _); [now right | now left].
  - rewrite (IssuerValidator_run st l pl Hl).
    destruct (negb _); [now right | now left].
  - rewrite (JWTIDValidator_run st l pl Hl).
    destruct (negb _); [now right | now left].
  - rewrite (NotBeforeValidator_run now st l pl Hl).
    destruct (time.Before _ _); [now right | now left].
  - rewrite (SubjectValidator_run st l pl Hl).
    destruct (negb _); [now right | now left].
Qed.

Lemma unit_of_payload_only
    (c : Config) (st1 st2 : Store) (l : loc) (pl : Payload) :
  st1 !! l = Some pl -> st2 !! l = Some pl ->
  fst (unit_of c (Some l) st1) = fst (unit_of c (Some l) st2).
Proof.
  intros H1 H2. destruct c; simpl.
  - unfold AudienceValidator.
    destruct (range_serverAud_some aud st1 l pl H1) as [[Ho1 R1]|[Ho1 R1]],
             (range_serverAud_some aud st2 l pl H2) as [[Ho2 R2]|[Ho2 R2]];
      rewrite R1, R2; try reflexivity; contradiction.
  - now rewrite (ExpirationTimeValidator_run now st1 l pl H1),
      (ExpirationTimeValidator_run now st2 l pl H2).
  - now rewrite (IssuedAtValidator_run now st1 l pl H1),
      (IssuedAtValidator_run now st2 l pl H2).
  - now rewrite (IssuerValidator_run st1 l pl H1),
      (IssuerValidator_run st2 l pl H2).
  - now rewrite (JWTIDValidator_run st1 l pl H1),
      (JWTIDValidator_run st2 l pl H2).
  - now rewrite (NotBeforeValidator_run now st1 l pl H1),
      (NotBeforeValidator_run now st2 l pl H2).
  - now rewrite (SubjectValidator_run st1 l pl H1),
      (SubjectValidator_run st2 l pl H2).
Qed.

(** ** Error values *)

Lemma package_errors_addr_NoDup : NoDup (err_addr <$> package_errors).
Proof.
  compute_done.
Qed.

(** On the package's errors, Go's [==] holds exactly between an error
    and itself. *)
Lemma package_errors_eqb (e1 e2 : error) :
  In e1 package_errors -> In e2 package_errors ->
  (error_eqb e1 e2 = true <-> e1 = e2).
Proof.
  intros H1 H2. split.
  - intros H. unfold error_eqb in H. apply Pos.eqb_eq in H.
    simpl in H1, H2.
    repeat destruct H1 as [H1|H1]; try contradiction; subst e1;
      repeat destruct H2 as [H2|H2]; try contradiction; subst e2;
      first [reflexivity | discriminate H].
  - intros ->. unfold error_eqb. apply Pos.eqb_refl.
Qed.

(** C7.  The package declares exactly seven claim errors; they are
    pairwise distinct, also as the pointers that [==] compares; and a
    validator that fails returns the error of its own claim, which is
    one of the seven: never another claim's error and never an error
    made elsewhere. *)
Theorem claim_errors_distinct_and_own :
  length package_errors = 7%nat /\
  NoDup (err_addr <$> package_errors) /\
  NoDup package_errors /\
  (forall e1 e2 : error,
     In e1 package_errors -> In e2 package_errors ->
     (error_eqb e1 e2 = true <-> e1 = e2)) /\
  (forall (c : Config) (p : ptr) (st st' : Store) (e : error),
     unit_of c p st = (Ok (Some e), st') ->
     e = own_error c /\ In e package_errors).
Proof.
  split; [reflexivity|]. split; [exact package_errors_addr_NoDup|].
  split; [exact (NoDup_fmap_1 err_addr _ package_errors_addr_NoDup)|].
  split; [exact package_errors_eqb|].
  intros c p st st' e H.
  assert (e = own_error c) as ->.
  { destruct (unit_of_cases c p st) as [H'|[H'|H']];
      rewrite H' in H; congruence. }
  split; [reflexivity|]. destruct c; simpl; tauto.
Qed.

Lemma claim_errors_distinct_and_own_witness :
  unit_of (CfgIssuer "other.example.com") (Some 1%positive) sample_store
    = (Ok (Some ErrIssValidation), sample_store) /\
  ErrIssValidation = own_error (CfgIssuer "other.example.com") /\
  In ErrIssValidation package_errors.
Proof.
  split; [reflexivity|].
  destruct claim_errors_distinct_and_own as (_ & _ & _ & _ & H).
  apply (H (CfgIssuer "other.example.com") (Some 1%positive)
           sample_store sample_store ErrIssValidation).
  reflexivity.
Defined.

(** ** Purity *)

(** C8.  Invoking a configured unit twice in a row on the same payload
    gives the same result both times, and its result is a function of
    the configuration and of the payload alone: whatever else the store
    holds plays no part. *)
Theorem unit_invoked_twice (c : Config) (p : ptr) (st : Store) :
  let first := unit_of c p st in
  let second := unit_of c p (snd first) in
  (fst second = fst first /\ snd second = snd first) /\
  (forall (st1 st2 : Store) (l : loc) (pl : Payload),
     st1 !! l = Some pl -> st2 !! l = Some pl ->
     fst (unit_of c (Some l) st1) = fst (unit_of c (Some l) st2)).
Proof.
  cbv zeta. rewrite !unit_of_store. split; [split; reflexivity|].
  apply unit_of_payload_only.
Qed.

Lemma unit_invoked_twice_witness :
  sample_store !! 1%positive = Some sample_payload /\
  (<[ 2%positive := zero_exp_payload ]> sample_store) !! 1%positive
    = Some sample_payload /\
  fst (unit_of (CfgExpirationTime t2000 false) (Some 1%positive) sample_store)
    = fst (unit_of (CfgExpirationTime t2000 false) (Some 1%positive)
             (<[ 2%positive := zero_exp_payload ]> sample_store)).
Proof.
  split; [reflexivity|]. split; [reflexivity|].
  destruct (unit_invoked_twice (CfgExpirationTime t2000 false)
              (Some 1%positive) sample_store) as [_ H].
  apply (H sample_store (<[ 2%positive := zero_exp_payload ]> sample_store)
           1%positive sample_payload); reflexivity.
Defined.

(** C9.  Applying a configured unit to a payload leaves the store, and
    with it every field of the payload, unchanged. *)
Theorem unit_leaves_payload
    (c : Config) (st : Store) (l : loc) (pl : Payload) :
  st !! l = Some pl ->
  let st' := snd (unit_of c (Some l) st) in
  st' = st /\
  exists pl' : Payload,
    st' !! l = Some pl' /\
    Issuer pl' = Issuer pl /\
    Subject pl' = Subject pl /\
    Audience_ pl' = Audience_ pl /\
    ExpirationTime pl' = ExpirationTime pl /\
    IssuedAt pl' = IssuedAt pl /\
    NotBefore pl' = NotBefore pl /\
    JWTID pl' = JWTID pl.
Proof.
  intros Hl st'. subst st'. rewrite unit_of_store.
  split; [reflexivity|]. exists pl. repeat split. exact Hl.
Qed.

Lemma unit_leaves_payload_witness :
  sample_store !! 1%positive = Some sample_payload /\
  snd (unit_of (CfgAudience ["svcX"]) (Some 1%positive) sample_store)
    = sample_store.
Proof.
  split; [reflexivity|].
  apply (unit_leaves_payload (CfgAudience ["svcX"]) sample_store 1%positive
           sample_payload).
  reflexivity.
Defined.

(** ** Pipeline *)

Lemma Validate_passes (p : ptr) (units : list ValidatorFunc) :
  forall st st1 : Store,
    passes p units st st1 -> Validate units p st = (Ok None, st1).
Proof.
  induction units as [|u rest IH]; simpl; intros st st1 H.
  - now subst st1.
  - destruct H as (st' & Hu & Hrest).
    rewrite (bind_ok _ _ _ _ _ Hu). now apply IH.
Qed.

Lemma Validate_first_failure
    (p : ptr) (pre : list ValidatorFunc) (u : ValidatorFunc)
    (post : list ValidatorFunc) (e : error) :
  forall st st1 st2 : Store,
    passes p pre st st1 ->
    u p st1 = (Ok (Some e), st2) ->
    Validate (pre ++ u :: post) p st = (Ok (Some e), st2).
Proof.
  induction pre as [|v rest IH]; simpl; intros st st1 st2 Hpre Hu.
  - subst st1. now rewrite (bind_ok _ _ _ _ _ Hu).
  - destruct Hpre as (st' & Hv & Hrest).
    rewrite (bind_ok _ _ _ _ _ Hv). now apply (IH st' st1 st2).
Qed.

Lemma Validate_inv (p : ptr) (units : list ValidatorFunc) :
  forall (st st2 : Store) (r : option error),
    Validate units p st = (Ok r, st2) ->
    match r with
    | None => passes p units st st2
    | Some e =>
        exists pre u post st1,
          units = pre ++ u :: post /\
          passes p pre st st1 /\
          u p st1 = (Ok (Some e), st2)
    end.
Proof.
  induction units as [|u rest IH]; simpl; intros st st2 r H.
  - unfold ret in H. injection H as <- <-. reflexivity.
  - unfold bind in H. destruct (u p st) as [[[e|]|] st'] eqn:Hu.
    + unfold ret in H. injection H as <- <-.
      exists [], u, rest, st. simpl. auto.
    + specialize (IH st' st2 r H). destruct r as [e|].
      * destruct IH as (pre & v & post & st1 & -> & Hpre & Hv).
        exists (u :: pre), v, post, st1. simpl. eauto.
      * exists st'. auto.
    + discriminate H.
Qed.

(** C3.  For every payload and every ordered sequence of units, the
    pipeline runs the units in the given order; it stops at the first
    unit that returns a non-nil error and returns exactly that error,
    the store being the one that unit left, so that no later unit is
    executed; when every unit returns nil the pipeline returns nil. *)
Theorem Validate_fail_fast (p : ptr) :
  (forall (pre : list ValidatorFunc) (u : ValidatorFunc)
          (post : list ValidatorFunc) (st st1 st2 : Store) (e : error),
     passes p pre st st1 ->
     u p st1 = (Ok (Some e), st2) ->
     Validate (pre ++ u :: post) p st = (Ok (Some e), st2)) /\
  (forall (units : list ValidatorFunc) (st st1 : Store),
     passes p units st st1 -> Validate units p st = (Ok None, st1)) /\
  (forall (units : list ValidatorFunc) (st st2 : Store) (e : error),
     Validate units p st = (Ok (Some e), st2) ->
     exists pre u post st1,
       units = pre ++ u :: post /\
       passes p pre st st1 /\
       u p st1 = (Ok (Some e), st2)).
Proof.
  split; [|split].
  - intros pre u post st st1 st2 e. apply Validate_first_failure.
  - intros units. apply Validate_passes.
  - intros units st st2 e H. exact (Validate_inv p units st st2 (Some e) H).
Qed.

Lemma Validate_fail_fast_witness :
  passes (Some 1%positive) [IssuerValidator "auth.example.com"]
    sample_store sample_store /\
  counting_stub ErrSubValidation (Some 1%positive) sample_store
    = (Ok (Some ErrSubValidation), counted_store) /\
  Validate
    ([IssuerValidator "auth.example.com"]
       ++ counting_stub ErrSubValidation :: [counting_stub ErrJtiValidation])
    (Some 1%positive) sample_store
    = (Ok (Some ErrSubValidation), counted_store).
Proof.
  assert (passes (Some 1%positive) [IssuerValidator "auth.example.com"]
            sample_store sample_store) as Hpre.
  { exists sample_store. split; reflexivity. }
  assert (counting_stub ErrSubValidation (Some 1%positive) sample_store
            = (Ok (Some ErrSubValidation), counted_store)) as Hu.
  { vm_compute. reflexivity. }
  split; [exact Hpre|]. split; [exact Hu|].
  destruct (Validate_fail_fast (Some 1%positive)) as [H _].
  exact (H _ _ _ _ _ _ _ Hpre Hu).
Defined.

(** * Further properties of the validators *)

(** ** Verdicts of the time validators *)

Section TimeVerdicts.

Variables (now : time.Time) (st : Store) (l : loc) (pl : Payload).
Hypothesis Hl : st !! l = Some pl.

Lemma After_Unix_false (s : Z) :
  time.After now (time.Unix s 0) = false <->
  ~ time.instant_lt (time.Unix s 0) now.
Proof.
  rewrite <- timeFacts.After_Unix. destruct (time.After now _); split;
    congruence.
Qed.

Lemma Before_Unix_false (s : Z) :
  time.Before now (time.Unix s 0) = false <->
  ~ time.instant_lt now (time.Unix s 0).
Proof.
  rewrite <- timeFacts.Before_Unix. destruct (time.Before now _); split;
    congruence.
Qed.

Lemma Exp_fails_iff (validateZero : bool) :
  ExpirationTimeValidator now validateZero (Some l) st
    = (Ok (Some ErrExpValidation), st) <->
  (validateZero = true \/ ExpirationTime pl <> 0) /\
  time.instant_lt (time.Unix (ExpirationTime pl) 0) now.
Proof.
  rewrite (ExpirationTimeValidator_run now st l pl Hl validateZero).
  destruct validateZero; simpl negb; simpl andb.
  - destruct (time.After now _) eqn:Ha.
    + apply timeFacts.After_Unix in Ha. tauto.
    + apply After_Unix_false in Ha. split; [discriminate | tauto].
  - destruct (ExpirationTime pl =? 0) eqn:E.
    + apply Z.eqb_eq in E. split; [discriminate|].
      intros [[H|H] _]; [discriminate | contradiction].
    + apply Z.eqb_neq in E. destruct (time.After now _) eqn:Ha.
      * apply timeFacts.After_Unix in Ha. tauto.
      * apply After_Unix_false in Ha. split; [discriminate | tauto].
Qed.

Lemma Exp_passes_iff (validateZero : bool) :
  ExpirationTimeValidator now validateZero (Some l) st = (Ok None, st) <->
  (validateZero = false /\ ExpirationTime pl = 0) \/
  ~ time.instant_lt (time.Unix (ExpirationTime pl) 0) now.
Proof.
  rewrite (ExpirationTimeValidator_run now st l pl Hl validateZero).
  destruct validateZero; simpl negb; simpl andb.
  - destruct (time.After now _) eqn:Ha.
    + apply timeFacts.After_Unix in Ha. split; [discriminate|].
      intros [[H _]|H]; [discriminate | contradiction].
    + apply After_Unix_false in Ha. tauto.
  - destruct (ExpirationTime pl =? 0) eqn:E.
    + apply Z.eqb_eq in E. tauto.
    + apply Z.eqb_neq in E. destruct (time.After now _) eqn:Ha.
      * apply timeFacts.After_Unix in Ha. split; [discriminate|].
        intros [[_ H]|H]; contradiction.
      * apply After_Unix_false in Ha. tauto.
Qed.

Lemma Nbf_fails_iff :
  NotBeforeValidator now (Some l) st = (Ok (Some ErrNbfValidation), st) <->
  time.instant_lt now (time.Unix (NotBefore pl) 0).
Proof.
  rewrite (NotBeforeValidator_run now st l pl Hl).
  destruct (time.Before now _) eqn:Hb.
  - apply timeFacts.Before_Unix in Hb. tauto.
  - apply Before_Unix_false in Hb. split; [discriminate | tauto].
Qed.

Lemma Nbf_passes_iff :
  NotBeforeValidator now (Some l) st = (Ok None, st) <->
  ~ time.instant_lt now (time.Unix (NotBefore pl) 0).
Proof.
  rewrite (NotBeforeValidator_run now st l pl Hl).
  destruct (time.Before now _) eqn:Hb.
  - apply timeFacts.Before_Unix in Hb. split; [discriminate | tauto].
  - apply Before_Unix_false in Hb. tauto.
Qed.

Lemma Iat_fails_iff :
  IssuedAtValidator now (Some l) st = (Ok (Some ErrIatValidation), st) <->
  time.instant_lt now (time.Unix (IssuedAt pl) 0).
Proof.
  rewrite (IssuedAtValidator_run now st l pl Hl).
  destruct (time.Before now _) eqn:Hb.
  - apply timeFacts.Before_Unix in Hb. tauto.
  - apply Before_Unix_false in Hb. split; [discriminate | tauto].
Qed.

Lemma Iat_passes_iff :
  IssuedAtValidator now (Some l) st = (Ok None, st) <->
  ~ time.instant_lt now (time.Unix (IssuedAt pl) 0).
Proof.
  rewrite (IssuedAtValidator_run now st l pl Hl).
  destruct (time.Before now _) eqn:Hb.
  - apply timeFacts.Before_Unix in Hb. split; [discriminate | tauto].
  - apply Before_Unix_false in Hb. tauto.
Qed.

End TimeVerdicts.

(** ** Audience: edge cases, growth, symmetry *)

Section AudienceVerdicts.

Variables (W : Audience) (st : Store) (l : loc) (pl : Payload).
Hypothesis Hl : st !! l = Some pl.

Lemma Aud_passes_iff :
  AudienceValidator W (Some l) st = (Ok None, st) <->
  overlap W (Audience_ pl).
Proof.
  unfold AudienceValidator.
  destruct (range_serverAud_some W st l pl Hl) as [[Ho Hr]|[Ho Hr]];
    rewrite Hr; split; try tauto; try discriminate.
Qed.

Lemma Aud_fails_iff :
  AudienceValidator W (Some l) st = (Ok (Some ErrAudValidation), st) <->
  ~ overlap W (Audience_ pl).
Proof.
  unfold AudienceValidator.
  destruct (range_serverAud_some W st l pl Hl) as [[Ho Hr]|[Ho Hr]];
    rewrite Hr; split; try tauto; try discriminate.
Qed.

End AudienceVerdicts.

(** X1.  An empty whitelist rejects every payload, and does so without
    reading through the pointer, so even a nil pointer gets the
    audience error; and a payload without audience is rejected by every
    whitelist. *)
Theorem AudienceValidator_empty :
  (forall (p : ptr) (st : Store),
     AudienceValidator [] p st = (Ok (Some ErrAudValidation), st)) /\
  (forall (W : Audience) (st : Store) (l : loc) (pl : Payload),
     st !! l = Some pl ->
     Audience_ pl = [] ->
     AudienceValidator W (Some l) st = (Ok (Some ErrAudValidation), st)).
Proof.
  split; [reflexivity|].
  intros W st l pl Hl He. apply (Aud_fails_iff W st l pl Hl).
  rewrite He. intros (s & _ & []).
Qed.

Lemma AudienceValidator_empty_witness :
  zero_store !! 2%positive = Some zero_exp_payload /\
  Audience_ zero_exp_payload = [] /\
  AudienceValidator ["svcB"; "svcC"] (Some 2%positive) zero_store
    = (Ok (Some ErrAudValidation), zero_store).
Proof.
  split; [reflexivity|]. split; [reflexivity|].
  destruct AudienceValidator_empty as [_ H].
  apply (H ["svcB"; "svcC"] zero_store 2%positive zero_exp_payload);
    reflexivity.
Defined.

(** X2.  Acceptance only grows: when a whitelist accepts a payload,
    every whitelist that contains it accepts every payload whose
    audience contains that payload's audience. *)
Theorem AudienceValidator_monotone
    (W W' : Audience) (st st' : Store) (l l' : loc) (pl pl' : Payload) :
  st !! l = Some pl ->
  st' !! l' = Some pl' ->
  incl W W' ->
  incl (Audience_ pl) (Audience_ pl') ->
  AudienceValidator W (Some l) st = (Ok None, st) ->
  AudienceValidator W' (Some l') st' = (Ok None, st').
Proof.
  intros Hl Hl' HW HA H.
  apply (Aud_passes_iff W st l pl Hl) in H. destruct H as (s & Hs & Hs').
  apply (Aud_passes_iff W' st' l' pl' Hl'). exists s. split.
  - now apply HW.
  - now apply HA.
Qed.

Lemma AudienceValidator_monotone_witness :
  AudienceValidator ["svcC"; "svcA"; "svcB"] (Some 1%positive) sample_store
    = (Ok None, sample_store).
Proof.
  apply (AudienceValidator_monotone ["svcB"] ["svcC"; "svcA"; "svcB"]
           sample_store sample_store 1%positive 1%positive
           sample_payload sample_payload).
  - reflexivity.
  - reflexivity.
  - intros x [<-|[]]. simpl. tauto.
  - intros x Hx. exact Hx.
  - reflexivity.
Defined.

(** X3.  The check is symmetric: a whitelist [W] accepts a payload with
    audience [A] exactly when the whitelist [A] accepts a payload with
    audience [W]. *)
Theorem AudienceValidator_symmetric
    (st st' : Store) (l l' : loc) (pl pl' : Payload) :
  st !! l = Some pl ->
  st' !! l' = Some pl' ->
  (AudienceValidator (Audience_ pl') (Some l) st = (Ok None, st) <->
   AudienceValidator (Audience_ pl) (Some l') st' = (Ok None, st')).
Proof.
  intros Hl Hl'.
  rewrite (Aud_passes_iff _ st l pl Hl), (Aud_passes_iff _ st' l' pl' Hl').
  unfold overlap. split; intros (s & H1 & H2); exists s; tauto.
Qed.

Lemma AudienceValidator_symmetric_witness :
  AudienceValidator (Audience_ sample_payload) (Some 4%positive) window_store
    = (Ok None, window_store).
Proof.
  apply (AudienceValidator_symmetric sample_store window_store
           1%positive 4%positive sample_payload window_payload);
    reflexivity.
Defined.

(** ** Panics *)

(** X4.  On a nil pointer every configured unit panics, except the
    audience validator of an empty whitelist; on a pointer that refers
    to a payload no unit panics. *)
Theorem unit_panics_on_nil :
  (forall (c : Config) (st : Store),
     unit_of c None st = (Panic, st) <-> c <> CfgAudience []) /\
  (forall (c : Config) (p : ptr) (st : Store),
     refers p st -> fst (unit_of c p st) <> Panic).
Proof.
  split.
  - intros c st. split.
    + intros H ->. discriminate H.
    + intros Hc. destruct c; try reflexivity.
      destruct aud as [|serverAud rest]; [contradiction | reflexivity].
  - intros c p st (l & pl & -> & Hl).
    destruct (unit_of_returns c st l pl Hl) as [H|H]; rewrite H;
      discriminate.
Qed.

Lemma unit_panics_on_nil_witness :
  refers (Some 1%positive) sample_store /\
  fst (unit_of (CfgSubject "bob") (Some 1%positive) sample_store) <> Panic.
Proof.
  assert (refers (Some 1%positive) sample_store) as Hr.
  { exists 1%positive, sample_payload. split; reflexivity. }
  split; [exact Hr|].
  destruct unit_panics_on_nil as [_ H].
  exact (H (CfgSubject "bob") (Some 1%positive) sample_store Hr).
Defined.

(** ** Which field a unit reads *)

(** X5.  The verdict of a configured unit depends on one field of the
    payload only, the field of its own claim: two payloads that agree
    on that field get the same verdict, whatever their other fields and
    wherever they are stored. *)
Theorem unit_reads_own_field
    (c : Config) (st st' : Store) (l l' : loc) (pl pl' : Payload) :
  st !! l = Some pl ->
  st' !! l' = Some pl' ->
  claim_field_agrees c pl pl' ->
  fst (unit_of c (Some l) st) = fst (unit_of c (Some l') st').
Proof.
  intros Hl Hl' Ha. destruct c; simpl in *.
  - unfold AudienceValidator.
    destruct (range_serverAud_some aud st l pl Hl) as [[Ho R]|[Ho R]],
             (range_serverAud_some aud st' l' pl' Hl') as [[Ho' R']|[Ho' R']];
      rewrite R, R'; try reflexivity; rewrite Ha in Ho; contradiction.
  - rewrite (ExpirationTimeValidator_run now st l pl Hl),
      (ExpirationTimeValidator_run now st' l' pl' Hl'), Ha. reflexivity.
  - rewrite (IssuedAtValidator_run now st l pl Hl),
      (IssuedAtValidator_run now st' l' pl' Hl'), Ha. reflexivity.
  - rewrite (IssuerValidator_run st l pl Hl),
      (IssuerValidator_run st' l' pl' Hl'), Ha. reflexivity.
  - rewrite (JWTIDValidator_run st l pl Hl),
      (JWTIDValidator_run st' l' pl' Hl'), Ha. reflexivity.
  - rewrite (NotBeforeValidator_run now st l pl Hl),
      (NotBeforeValidator_run now st' l' pl' Hl'), Ha. reflexivity.
  - rewrite (SubjectValidator_run st l pl Hl),
      (SubjectValidator_run st' l' pl' Hl'), Ha. reflexivity.
Qed.

Lemma unit_reads_own_field_witness :
  fst (unit_of (CfgIssuer "auth.example.com") (Some 1%positive) sample_store)
    = fst (unit_of (CfgIssuer "auth.example.com") (Some 4%positive)
             window_store).
Proof.
  apply (unit_reads_own_field (CfgIssuer "auth.example.com")
           sample_store window_store 1%positive 4%positive
           sample_payload window_payload); reflexivity.
Defined.

(** ** Reference times built by [Unix] *)

Module unixFacts.
Import time.

Lemma unixToInternal_value : unixToInternal = 62135596800.
Proof. reflexivity. Qed.

Lemma land_hasMonotonic_small (w : Z) :
  0 <= w < 2 ^ 63 -> Z.land w hasMonotonic = 0.
Proof.
  intros Hw. rewrite <- (Z.mod_small w (2 ^ 63)) by lia.
  rewrite <- Z.land_ones by lia. rewrite <- Z.land_assoc.
  change (Z.land (Z.ones 63) hasMonotonic) with 0. apply Z.land_0_r.
Qed.

Lemma land_nsecMask_small (w : Z) :
  0 <= w < 2 ^ 30 -> Z.land w nsecMask = w.
Proof.
  intros Hw. change nsecMask with (Z.ones 30).
  rewrite Z.land_ones by lia. apply Z.mod_small. lia.
Qed.

Section WithNanoseconds.

Variables (s ns : Z).
Hypothesis Hns : 0 <= ns < 1000000000.

Lemma Unix_ns : Unix s ns = unixTime s ns.
Proof.
  unfold Unix.
  assert ((ns <? 0) || (ns >=? 1000000000) = false) as ->; [|reflexivity].
  apply orb_false_iff. split; [apply Z.ltb_ge; lia|].
  rewrite Z.geb_leb. apply Z.leb_gt. lia.
Qed.

Lemma wall_Unix_ns : wall (Unix s ns) = ns.
Proof.
  rewrite Unix_ns. simpl. unfold Int64.uwrap, Int64.modulus.
  apply Z.mod_small. lia.
Qed.

Lemma nsec_Unix_ns : nsec (Unix s ns) = ns.
Proof.
  unfold nsec. rewrite wall_Unix_ns. apply land_nsecMask_small. lia.
Qed.

Lemma sec_Unix_ns :
  Int64.in_range (s + unixToInternal) -> sec (Unix s ns) = s + unixToInternal.
Proof.
  intros [Hlo Hhi]. unfold sec. rewrite wall_Unix_ns.
  rewrite land_hasMonotonic_small by lia. simpl negb. cbv iota.
  rewrite Unix_ns. simpl. unfold Int64.wrap, Int64.modulus.
  unfold Int64.min_signed, Int64.max_signed in *.
  rewrite Z.mod_small; lia.
Qed.

End WithNanoseconds.

(** Beyond the range of [Unix] the second count wraps below zero. *)
Lemma sec_Unix_beyond (s : Z) : beyond_Unix s -> sec (Unix s 0) < 0.
Proof.
  unfold beyond_Unix, Int64.max_signed. rewrite timeFacts.sec_Unix.
  rewrite unixToInternal_value. intros Hs.
  unfold Int64.wrap, Int64.modulus.
  replace (s + 62135596800 + 2 ^ 63)
    with (s + 62135596800 - 2 ^ 63 + 1 * 2 ^ 64) by lia.
  rewrite Z.mod_add by lia. rewrite Z.mod_small; lia.
Qed.

(** With the monotonic bit set, seconds and nanoseconds are read from
    [wall] alone. *)
Lemma sec_monotonic (t t' : Time) :
  wall t = wall t' -> Z.land (wall t) hasMonotonic <> 0 -> sec t = sec t'.
Proof.
  intros Hw Hm. unfold sec. rewrite <- Hw.
  destruct (Z.land (wall t) hasMonotonic =? 0) eqn:E; [|reflexivity].
  apply Z.eqb_eq in E. contradiction.
Qed.

Lemma After_Unix_wall (t t' : Time) (e : Z) :
  wall t = wall t' -> Z.land (wall t) hasMonotonic <> 0 ->
  After t (Unix e 0) = After t' (Unix e 0).
Proof.
  intros Hw Hm. unfold After.
  rewrite !timeFacts.no_shared_monotonic. simpl negb. cbv iota zeta.
  unfold nsec. rewrite <- Hw. now rewrite (sec_monotonic t t' Hw Hm).
Qed.

Lemma Before_Unix_wall (t t' : Time) (e : Z) :
  wall t = wall t' -> Z.land (wall t) hasMonotonic <> 0 ->
  Before t (Unix e 0) = Before t' (Unix e 0).
Proof.
  intros Hw Hm. unfold Before.
  rewrite !timeFacts.no_shared_monotonic. simpl negb. cbv iota zeta.
  unfold nsec. rewrite <- Hw. now rewrite (sec_monotonic t t' Hw Hm).
Qed.

End unixFacts.

(** ** Moving the reference time *)

Lemma instant_lt_le_trans (u t t' : time.Time) :
  time.instant_lt u t -> instant_le t t' -> time.instant_lt u t'.
Proof. unfold instant_le, time.instant_lt. lia. Qed.

Lemma instant_le_lt_trans (t t' u : time.Time) :
  instant_le t t' -> time.instant_lt t' u -> time.instant_lt t u.
Proof. unfold instant_le, time.instant_lt. lia. Qed.

Lemma instant_lt_irrefl (t : time.Time) : ~ time.instant_lt t t.
Proof. unfold time.instant_lt. lia. Qed.

(** X6.  Expiry is final: a payload that the expiration validator
    rejects at a reference time is rejected at every reference time
    that is not earlier. *)
Theorem ExpirationTimeValidator_later
    (now now' : time.Time) (validateZero : bool)
    (st : Store) (l : loc) (pl : Payload) :
  st !! l = Some pl ->
  instant_le now now' ->
  ExpirationTimeValidator now validateZero (Some l) st
    = (Ok (Some ErrExpValidation), st) ->
  ExpirationTimeValidator now' validateZero (Some l) st
    = (Ok (Some ErrExpValidation), st).
Proof.
  intros Hl Hle H.
  apply (Exp_fails_iff now st l pl Hl) in H. destruct H as [Hz Hlt].
  apply (Exp_fails_iff now' st l pl Hl). split; [exact Hz|].
  exact (instant_lt_le_trans _ _ _ Hlt Hle).
Qed.

Lemma ExpirationTimeValidator_later_witness :
  ExpirationTimeValidator (with_monotonic 0) false (Some 1%positive)
    sample_store
    = (Ok (Some ErrExpValidation), sample_store).
Proof.
  apply (ExpirationTimeValidator_later t2000 (with_monotonic 0) false
           sample_store 1%positive sample_payload).
  - reflexivity.
  - unfold instant_le, time.instant_lt. vm_compute.
    intros [H|[H _]]; discriminate H.
  - reflexivity.
Defined.

(** X7.  A payload that the not-before validator, or the issued-at
    validator, accepts at a reference time is accepted at every
    reference time that is not earlier. *)
Theorem NotBefore_IssuedAt_later
    (now now' : time.Time) (st : Store) (l : loc) (pl : Payload) :
  st !! l = Some pl ->
  instant_le now now' ->
  (NotBeforeValidator now (Some l) st = (Ok None, st) ->
   NotBeforeValidator now' (Some l) st = (Ok None, st)) /\
  (IssuedAtValidator now (Some l) st = (Ok None, st) ->
   IssuedAtValidator now' (Some l) st = (Ok None, st)).
Proof.
  intros Hl Hle. split; intros H.
  - apply (Nbf_passes_iff now st l pl Hl) in H.
    apply (Nbf_passes_iff now' st l pl Hl). intros Hlt. apply H.
    exact (instant_le_lt_trans _ _ _ Hle Hlt).
  - apply (Iat_passes_iff now st l pl Hl) in H.
    apply (Iat_passes_iff now' st l pl Hl). intros Hlt. apply H.
    exact (instant_le_lt_trans _ _ _ Hle Hlt).
Qed.

Lemma NotBefore_IssuedAt_later_witness :
  NotBeforeValidator t2000 (Some 4%positive) window_store
    = (Ok None, window_store).
Proof.
  destruct (NotBefore_IssuedAt_later (time.Unix 500 0) t2000 window_store
              4%positive window_payload) as [H _].
  - reflexivity.
  - unfold instant_le, time.instant_lt. vm_compute.
    intros [H|[H _]]; discriminate H.
  - apply H. reflexivity.
Defined.

(** ** Seconds and nanoseconds *)

(** X8.  The expiration check is exact to the nanosecond: at the
    reference time [Unix(s, ns)] a payload expiring at second [e] is
    rejected exactly when [e < s], or [e = s] and [ns] is positive.  At
    the expiration second itself the payload is still accepted; one
    nanosecond later it is not. *)
Theorem ExpirationTimeValidator_nanoseconds
    (s ns : Z) (st : Store) (l : loc) (pl : Payload) :
  st !! l = Some pl ->
  0 <= ns < 1000000000 ->
  Int64.in_range (s + time.unixToInternal) ->
  Int64.in_range (ExpirationTime pl + time.unixToInternal) ->
  (ExpirationTimeValidator (time.Unix s ns) true (Some l) st
     = (Ok (Some ErrExpValidation), st)
   <-> ExpirationTime pl < s \/ (ExpirationTime pl = s /\ 0 < ns)).
Proof.
  intros Hl Hns Hs He.
  rewrite (Exp_fails_iff (time.Unix s ns) st l pl Hl true).
  unfold time.instant_lt.
  rewrite (timeFacts.sec_Unix_exact _ He), timeFacts.nsec_Unix.
  rewrite (unixFacts.sec_Unix_ns s ns Hns Hs), (unixFacts.nsec_Unix_ns s ns Hns).
  split; [intros [_ H]; lia | intros H; split; [now left | lia]].
Qed.

Lemma ExpirationTimeValidator_nanoseconds_witness :
  ExpirationTimeValidator (time.Unix 1000 1) true (Some 1%positive)
    sample_store
    = (Ok (Some ErrExpValidation), sample_store).
Proof.
  apply (ExpirationTimeValidator_nanoseconds 1000 1 sample_store 1%positive
           sample_payload).
  - reflexivity.
  - lia.
  - vm_compute. split; discriminate.
  - vm_compute. split; discriminate.
  - right. split; [reflexivity | lia].
Defined.

(** X9.  The not-before and issued-at checks see whole seconds only: at
    the reference time [Unix(s, ns)] the payload is rejected exactly
    when [s] is smaller than the claim's second, whatever [ns] is. *)
Theorem NotBefore_IssuedAt_seconds
    (s ns : Z) (st : Store) (l : loc) (pl : Payload) :
  st !! l = Some pl ->
  0 <= ns < 1000000000 ->
  Int64.in_range (s + time.unixToInternal) ->
  Int64.in_range (NotBefore pl + time.unixToInternal) ->
  Int64.in_range (IssuedAt pl + time.unixToInternal) ->
  (NotBeforeValidator (time.Unix s ns) (Some l) st
     = (Ok (Some ErrNbfValidation), st) <-> s < NotBefore pl) /\
  (IssuedAtValidator (time.Unix s ns) (Some l) st
     = (Ok (Some ErrIatValidation), st) <-> s < IssuedAt pl).
Proof.
  intros Hl Hns Hs Hn Hi.
  rewrite (Nbf_fails_iff (time.Unix s ns) st l pl Hl).
  rewrite (Iat_fails_iff (time.Unix s ns) st l pl Hl).
  unfold time.instant_lt.
  rewrite (timeFacts.sec_Unix_exact _ Hn), (timeFacts.sec_Unix_exact _ Hi).
  rewrite !timeFacts.nsec_Unix.
  rewrite (unixFacts.sec_Unix_ns s ns Hns Hs), (unixFacts.nsec_Unix_ns s ns Hns).
  split; lia.
Qed.

Lemma NotBefore_IssuedAt_seconds_witness :
  NotBeforeValidator (time.Unix 499 999999999) (Some 4%positive) window_store
    = (Ok (Some ErrNbfValidation), window_store).
Proof.
  destruct (NotBefore_IssuedAt_seconds 499 999999999 window_store 4%positive
              window_payload) as [H _].
  - reflexivity.
  - lia.
  - vm_compute. split; discriminate.
  - vm_compute. split; discriminate.
  - vm_compute. split; discriminate.
  - apply H. reflexivity.
Defined.

(** ** The validity window *)

(** X10.  For a payload whose not-before and expiration times are
    second counts that [Unix] represents and whose not-before second is
    not larger than its expiration second, no reference time makes both
    the expiration validator and the not-before validator reject it,
    and both accept it at either end of the window: at the not-before
    second and at the expiration second. *)
Theorem validity_window
    (validateZero : bool) (st : Store) (l : loc) (pl : Payload) :
  st !! l = Some pl ->
  Unix_exact (NotBefore pl) ->
  Unix_exact (ExpirationTime pl) ->
  NotBefore pl <= ExpirationTime pl ->
  (forall now : time.Time,
     ~ (ExpirationTimeValidator now validateZero (Some l) st
          = (Ok (Some ErrExpValidation), st) /\
        NotBeforeValidator now (Some l) st
          = (Ok (Some ErrNbfValidation), st))) /\
  (forall now : time.Time,
     now = time.Unix (NotBefore pl) 0 \/ now = time.Unix (ExpirationTime pl) 0 ->
     ExpirationTimeValidator now validateZero (Some l) st = (Ok None, st) /\
     NotBeforeValidator now (Some l) st = (Ok None, st)).
Proof.
  intros Hl Hn He Hle.
  assert (instant_le (time.Unix (NotBefore pl) 0)
            (time.Unix (ExpirationTime pl) 0)) as Hw.
  { unfold instant_le, time.instant_lt.
    rewrite (timeFacts.sec_Unix_exact _ Hn), (timeFacts.sec_Unix_exact _ He).
    rewrite !timeFacts.nsec_Unix. lia. }
  split.
  - intros now [Hx Hb].
    apply (Exp_fails_iff now st l pl Hl) in Hx. destruct Hx as [_ Hx].
    apply (Nbf_fails_iff now st l pl Hl) in Hb.
    revert Hw Hx Hb. unfold instant_le, time.instant_lt. lia.
  - intros now Hnow.
    rewrite (Exp_passes_iff now st l pl Hl), (Nbf_passes_iff now st l pl Hl).
    destruct Hnow as [-> | ->].
    + split; [right; exact Hw | apply instant_lt_irrefl].
    + split; [right; apply instant_lt_irrefl | exact Hw].
Qed.

Lemma validity_window_witness :
  ExpirationTimeValidator (time.Unix 1000 0) true (Some 4%positive)
    window_store = (Ok None, window_store) /\
  NotBeforeValidator (time.Unix 1000 0) (Some 4%positive) window_store
    = (Ok None, window_store).
Proof.
  destruct (validity_window true window_store 4%positive window_payload)
    as [_ H].
  - reflexivity.
  - vm_compute. split; discriminate.
  - vm_compute. split; discriminate.
  - vm_compute. discriminate.
  - apply H. right. reflexivity.
Defined.

(** ** The flag [validateZero] *)

(** X11.  The flag matters for a zero expiration time only: on any
    other payload both settings give the same result, and whatever the
    payload, what the strict setting accepts the permissive one accepts
    too. *)
Theorem validateZero_only_at_zero
    (now : time.Time) (st : Store) (l : loc) (pl : Payload) :
  st !! l = Some pl ->
  (ExpirationTime pl <> 0 ->
   ExpirationTimeValidator now true (Some l) st
     = ExpirationTimeValidator now false (Some l) st) /\
  (ExpirationTimeValidator now true (Some l) st = (Ok None, st) ->
   ExpirationTimeValidator now false (Some l) st = (Ok None, st)).
Proof.
  intros Hl. rewrite !(ExpirationTimeValidator_run now st l pl Hl).
  simpl negb. simpl andb. split.
  - intros Hne. apply Z.eqb_neq in Hne. now rewrite Hne.
  - intros H. destruct (ExpirationTime pl =? 0); [reflexivity | exact H].
Qed.

Lemma validateZero_only_at_zero_witness :
  ExpirationTimeValidator t2000 true (Some 1%positive) sample_store
    = ExpirationTimeValidator t2000 false (Some 1%positive) sample_store.
Proof.
  destruct (validateZero_only_at_zero t2000 sample_store 1%positive
              sample_payload) as [H _].
  - reflexivity.
  - apply H. discriminate.
Defined.

(** ** Timestamps that [Unix] cannot represent *)

(** X12.  An expiration time within [unixToInternal] of the largest
    [int64] wraps around in [Unix] to an instant before year 1: the
    expiration validator rejects such a payload at every reference time
    from year 1 on, although the timestamp names the far future. *)
Theorem ExpirationTimeValidator_beyond_Unix
    (now : time.Time) (validateZero : bool)
    (st : Store) (l : loc) (pl : Payload) :
  st !! l = Some pl ->
  beyond_Unix (ExpirationTime pl) ->
  0 <= time.sec now ->
  ExpirationTimeValidator now validateZero (Some l) st
    = (Ok (Some ErrExpValidation), st).
Proof.
  intros Hl Hb Hnow. apply (Exp_fails_iff now st l pl Hl). split.
  - right. revert Hb. unfold beyond_Unix, Int64.max_signed.
    rewrite unixFacts.unixToInternal_value. lia.
  - left. pose proof (unixFacts.sec_Unix_beyond _ Hb). lia.
Qed.

Lemma ExpirationTimeValidator_beyond_Unix_witness :
  ExpirationTimeValidator epoch false (Some 3%positive) far_store
    = (Ok (Some ErrExpValidation), far_store).
Proof.
  apply (ExpirationTimeValidator_beyond_Unix epoch false far_store 3%positive
           far_payload).
  - reflexivity.
  - vm_compute. split; [reflexivity | discriminate].
  - vm_compute. discriminate.
Defined.

(** X13.  A not-before or issued-at time within [unixToInternal] of the
    largest [int64] wraps around in the same way: the validators accept
    such a payload at every reference time from year 1 on, although the
    timestamp names the far future. *)
Theorem NotBefore_IssuedAt_beyond_Unix
    (now : time.Time) (st : Store) (l : loc) (pl : Payload) :
  st !! l = Some pl ->
  0 <= time.sec now ->
  (beyond_Unix (NotBefore pl) ->
   NotBeforeValidator now (Some l) st = (Ok None, st)) /\
  (beyond_Unix (IssuedAt pl) ->
   IssuedAtValidator now (Some l) st = (Ok None, st)).
Proof.
  intros Hl Hnow. split; intros Hb.
  - apply (Nbf_passes_iff now st l pl Hl).
    pose proof (unixFacts.sec_Unix_beyond _ Hb).
    unfold time.instant_lt. lia.
  - apply (Iat_passes_iff now st l pl Hl).
    pose proof (unixFacts.sec_Unix_beyond _ Hb).
    unfold time.instant_lt. lia.
Qed.

Lemma NotBefore_IssuedAt_beyond_Unix_witness :
  NotBeforeValidator t2000 (Some 3%positive) far_store = (Ok None, far_store).
Proof.
  destruct (NotBefore_IssuedAt_beyond_Unix t2000 far_store 3%positive
              far_payload) as [H _].
  - reflexivity.
  - vm_compute. discriminate.
  - apply H. vm_compute. split; [reflexivity | discriminate].
Defined.

(** ** Monotonic clock readings *)

(** X14.  The three time validators read the wall clock of the
    reference time only: two reference times that carry the same wall
    clock word with a monotonic reading configure validators that
    behave alike on every pointer and store, whatever the monotonic
    readings are. *)
Theorem monotonic_reading_ignored
    (now now' : time.Time) (validateZero : bool) (p : ptr) (st : Store) :
  time.wall now = time.wall now' ->
  Z.land (time.wall now) time.hasMonotonic <> 0 ->
  ExpirationTimeValidator now validateZero p st
    = ExpirationTimeValidator now' validateZero p st /\
  IssuedAtValidator now p st = IssuedAtValidator now' p st /\
  NotBeforeValidator now p st = NotBeforeValidator now' p st.
Proof.
  intros Hw Hm.
  unfold ExpirationTimeValidator, IssuedAtValidator, NotBeforeValidator, bind.
  destruct (load p st) as [[pl|] st1]; [|repeat split; reflexivity].
  cbv zeta.
  rewrite (unixFacts.After_Unix_wall now now' _ Hw Hm).
  rewrite !(unixFacts.Before_Unix_wall now now' _ Hw Hm).
  repeat split; reflexivity.
Qed.

Lemma monotonic_reading_ignored_witness :
  ExpirationTimeValidator (with_monotonic 0) false (Some 4%positive)
    window_store
    = ExpirationTimeValidator (with_monotonic 123456789) false
        (Some 4%positive) window_store.
Proof.
  destruct (monotonic_reading_ignored (with_monotonic 0)
              (with_monotonic 123456789) false (Some 4%positive) window_store)
    as [H _].
  - reflexivity.
  - vm_compute. discriminate.
  - exact H.
Defined.

(** ** Exact matches *)

(** X15.  An exact-match validator accepts one expected value per
    payload: two issuer validators that both accept the same payload
    were configured with the same string, and likewise for the subject
    and the token id.  No wildcard and no second spelling is accepted. *)
Theorem exact_match_unique
    (s s' : string) (st : Store) (l : loc) (pl : Payload) :
  st !! l = Some pl ->
  (IssuerValidator s (Some l) st = (Ok None, st) ->
   IssuerValidator s' (Some l) st = (Ok None, st) -> s = s') /\
  (SubjectValidator s (Some l) st = (Ok None, st) ->
   SubjectValidator s' (Some l) st = (Ok None, st) -> s = s') /\
  (JWTIDValidator s (Some l) st = (Ok None, st) ->
   JWTIDValidator s' (Some l) st = (Ok None, st) -> s = s').
Proof.
  intros Hl.
  rewrite !(IssuerValidator_run st l pl Hl), !(SubjectValidator_run st l pl Hl),
    !(JWTIDValidator_run st l pl Hl).
  repeat split; intros H H'; apply exact_match_iff in H, H'; congruence.
Qed.

Lemma exact_match_unique_witness :
  "auth.example.com" = Issuer sample_payload.
Proof.
  destruct (exact_match_unique "auth.example.com" (Issuer sample_payload)
              sample_store 1%positive sample_payload) as [H _].
  - reflexivity.
  - apply H; reflexivity.
Defined.
